(** * PublishableApiKeyService: a shallow embedding and its lifecycle properties

    The service of [services/publishable-api-key] manages the lifecycle of
    publishable API keys: [create], [retrieve], [listAndCount], [revoke] and
    [isValid].  Every method is a short sequence of repository calls and
    event emissions, run against a database and, for the two writers, inside
    [atomicPhase_].

    The embedding threads the database through a state-and-error monad
    ([Promise]): an [await]ed call is a bind ([andThen]), a [throw] is the
    error branch.
    The table of keys is a finite map from primary key to row. *)

From stdpp Require Import gmap strings list fin_maps.
From Stdlib Require Import ZArith.

Open Scope string_scope.

(** ** Data model *)

(** A JS [Date], as milliseconds since the epoch.  Every [Date] object is
    truthy, whatever its value. *)
Definition Date : Type := Z.

(** Modelled from the spec: the entity class ([models/publishable-api-key])
    is not among the sources; its properties are those of the data model.
    A property that is [null] or [undefined] is [None]: the service tests
    [revoked_at] for truthiness only, and compares
    [revoked_by] with [null] only on an entity that was just loaded from the
    database, where an SQL NULL is read back as [null]. *)
Record PublishableApiKey : Type := mkPublishableApiKey {
  id : option string;
  created_by : option string;
  revoked_by : option string;
  revoked_at : option Date
}.

(** A row of the table, without its primary key. *)
Record Row : Type := mkRow {
  row_created_by : option string;
  row_revoked_by : option string;
  row_revoked_at : option Date
}.

Definition columns (e : PublishableApiKey) : Row :=
  mkRow (created_by e) (revoked_by e) (revoked_at e).

(** Reading a row back as an entity. *)
Definition hydrate (k : string) (r : Row) : PublishableApiKey :=
  mkPublishableApiKey (Some k) (row_created_by r) (row_revoked_by r)
    (row_revoked_at r).

(** An emitted event: its name and the [id] property of its payload
    (the payload is always an object literal [{ id: ... }]). *)
Record Event : Type := mkEvent {
  eventName : string;
  data_id : option string
}.

(** [PublishableApiKeyService.Events] *)
Module Events.

Definition CREATED : string := "publishable_api_key.created".

Definition REVOKED : string := "publishable_api_key.revoked".

End Events.

Inductive MedusaErrorTypes : Type := NOT_FOUND | NOT_ALLOWED.

(** What a method can throw: a [MedusaError], or the store's own failure
    (a violated primary key). *)
Inductive Error : Type :=
| MedusaError (type : MedusaErrorTypes) (message : string)
| QueryFailedError.

(** The database as the service sees it through its manager: the table of
    keys and the events staged on the bus. *)
Record State : Type := mkState {
  table : gmap string Row;
  events : list Event
}.

Definition initial : State := mkState ∅ [].

(** ** The monad of asynchronous, fallible, stateful calls *)

Definition Promise (A : Type) : Type := State → (Error + A) * State.

Definition resolve {A} (a : A) : Promise A := λ s, (inr a, s).

Definition throw {A} (e : Error) : Promise A := λ s, (inl e, s).

Definition andThen {A B} (m : Promise A) (k : A → Promise B) : Promise B :=
  λ s, match m s with
       | (inl e, s') => (inl e, s')
       | (inr a, s') => k a s'
       end.

Declare Scope promise_scope.
Delimit Scope promise_scope with promise.
Notation "'const' x ':=' 'await' m ';' k" := (andThen m (λ x, k))
  (at level 10, x name, m at level 100, k at level 200) : promise_scope.
Notation "'await' m ';' k" := (andThen m (λ _, k))
  (at level 10, m at level 100, k at level 200) : promise_scope.

(** Modelled from the spec: [TransactionBaseService.atomicPhase_] is not
    among the sources.  An atomic phase is a unit of work whose writes and
    emitted events commit or fail together: when the work throws, the
    database is rolled back to what it was and the error is rethrown. *)
Definition atomicPhase_ {A} (work : Promise A) : Promise A :=
  λ s, match work s with
       | (inl e, _) => (inl e, s)
       | (inr a, s') => (inr a, s')
       end.

(** ** The repository *)

(** Modelled from the spec: the repository ([repositories/publishable-api-key],
    a custom repository of the ORM) is not among the sources.  The service
    calls it in two steps, [repo.create] and later [repo.save].
    [repo.create(plain)] instantiates an entity from the given properties:
    nothing is written and no identifier is assigned; the identifier is set
    when the entity is inserted. *)
Definition repo_create (plain_created_by : string) : PublishableApiKey :=
  mkPublishableApiKey None (Some plain_created_by) None None.

(** A selector: for each property, the value it must have, if any. *)
Record Selector : Type := mkSelector {
  sel_id : option string;
  sel_created_by : option string;
  sel_revoked_by : option string
}.

Definition by_id (k : string) : Selector := mkSelector (Some k) None None.

(** A find config: the pagination and the relations to load. *)
Record FindConfig : Type := mkFindConfig {
  skip : option nat;
  take : option nat;
  relations : list string
}.

(** [{}] *)
Definition empty_config : FindConfig := mkFindConfig None None [].

Record FindQuery : Type := mkFindQuery {
  q_where : PublishableApiKey → bool;
  q_skip : option nat;
  q_take : option nat;
  q_relations : list string
}.

Definition field_matches (wanted actual : option string) : bool :=
  match wanted with
  | None => true
  | Some v => bool_decide (actual = Some v)
  end.

(** Modelled from the spec: [buildQuery] of [utils] is not among the
    sources.  It turns the selector into the where-clause of the query and
    copies the pagination and relations of the config. *)
Definition buildQuery (selector : Selector) (config : FindConfig)
    : FindQuery :=
  mkFindQuery
    (λ e, field_matches (sel_id selector) (id e)
          && field_matches (sel_created_by selector) (created_by e)
          && field_matches (sel_revoked_by selector) (revoked_by e))
    (skip config) (take config) (relations config).

(** The rows of the table, as entities, in the order the store lists
    them. *)
Definition all_rows (s : State) : list PublishableApiKey :=
  map (λ kr, hydrate kr.1 kr.2) (map_to_list (table s)).

Definition paginate {A} (sk tk : option nat) (l : list A) : list A :=
  let l' := match sk with Some n => drop n l | None => l end in
  match tk with Some n => List.firstn n l' | None => l' end.

(** Modelled from the spec: [repo.findOneWithRelations(relations, query)],
    missing with the repository, finds by the where-clause of the query:
    the first entity that matches, or [undefined]. *)
Definition findOneWithRelations (rels : list string)
    (where_ : PublishableApiKey → bool)
    : Promise (option PublishableApiKey) :=
  λ s, (inr (List.find where_ (all_rows s)), s).

(** Modelled from the spec: [repo.findAndCount(query)], missing with the
    repository, finds and counts by filter: the page of matching entities
    and the number of all matching entities. *)
Definition findAndCount (query : FindQuery)
    : Promise (list PublishableApiKey * nat) :=
  λ s, let matching := List.filter (q_where query) (all_rows s) in
       (inr (paginate (q_skip query) (q_take query) matching,
             length matching), s).

(** Modelled from the spec: the event bus ([services/event-bus]) is not
    among the sources.  [withTransaction(manager).emit(name, { id })] is
    scoped to the current transaction: the event is staged with its writes,
    and the payload holds the value [id] had when the object literal was
    evaluated. *)
Definition emit (name : string) (payload_id : option string) : Promise unit :=
  λ s, (inr tt, mkState (table s) (events s ++ [mkEvent name payload_id])).

(** ** One call and its environment *)

Section Call.

(** What the environment supplies during one call of the service: the ULID
    that [ulid()] draws and the instant that [new Date()] reads. *)
Variable ulid : string.
Variable now : Date.

(** Modelled from the spec: [generateEntityId] of [utils], which the entity
    runs before it is inserted, is not among the sources.  It makes the
    unique identifier of the data model: one that is already set is kept;
    otherwise a new one is made from the prefix and a ULID. *)
Definition generateEntityId (idProperty : option string) (prefix : string)
    : string :=
  match idProperty with
  | Some i => i
  | None => prefix ++ "_" ++ ulid
  end.

(** Modelled from the spec: [repo.save(entity)], missing with the
    repository.  An entity with an identifier is written under it (updated,
    or inserted when absent); an entity without one is inserted under the
    identifier generated for it, and the insert fails (a store failure)
    when that primary key is taken.  The saved entity is returned. *)
Definition repo_save (e : PublishableApiKey)
    : Promise PublishableApiKey :=
  λ s, match id e with
       | Some k => (inr e, mkState (<[k := columns e]> (table s)) (events s))
       | None =>
           let k := generateEntityId (id e) "pk" in
           match table s !! k with
           | Some _ => (inl QueryFailedError, s)
           | None =>
               let e' := mkPublishableApiKey (Some k) (created_by e)
                           (revoked_by e) (revoked_at e) in
               (inr e', mkState (<[k := columns e']> (table s)) (events s))
           end
       end.

(** ** The service *)

Local Open Scope promise_scope.

(** [create(context)].  The payload of the event reads
    [publishableApiKey.id] before the entity is saved. *)
Definition create (loggedInUserId : string)
    : Promise PublishableApiKey :=
  atomicPhase_ (
    let publishableApiKey := repo_create loggedInUserId in
    await emit Events.CREATED (id publishableApiKey);
    repo_save publishableApiKey).

(** [retrieve_(selector, config)] *)
Definition retrieve_ (selector : Selector) (config : FindConfig)
    : Promise PublishableApiKey :=
  let query := buildQuery selector config in
  const publishableApiKey :=
    await findOneWithRelations (q_relations query) (q_where query);
  match publishableApiKey with
  | None =>
      throw (MedusaError NOT_FOUND "PublishableApiKey was not found")
  | Some found => resolve found
  end.

(** [retrieve(publishableApiKeyId, config = {})] *)
Definition retrieve (publishableApiKeyId : string)
    (config : option FindConfig) : Promise PublishableApiKey :=
  retrieve_ (by_id publishableApiKeyId) (default empty_config config).

(** The default of the [config] parameter of [listAndCount]. *)
Definition default_list_config : FindConfig :=
  mkFindConfig (Some 0) (Some 20) [].

(** [listAndCount(selector, config = { skip: 0, take: 20 })] *)
Definition listAndCount (selector : Selector) (config : option FindConfig)
    : Promise (list PublishableApiKey * nat) :=
  let config := default default_list_config config in
  let query := buildQuery selector config in
  findAndCount query.

(** [revoke(publishableApiKeyId, context)].  The retrieved entity is
    mutated, saved, and only then is the event emitted. *)
Definition revoke (publishableApiKeyId : string) (loggedInUserId : string)
    : Promise unit :=
  atomicPhase_ (
    const pubKey := await retrieve publishableApiKeyId None;
    match revoked_at pubKey with
    | Some _ =>
        throw (MedusaError NOT_ALLOWED
                 "PublishableApiKey has already been revoked.")
    | None =>
        let pubKey := mkPublishableApiKey (id pubKey) (created_by pubKey)
                        (Some loggedInUserId) (Some now) in
        await repo_save pubKey;
        emit Events.REVOKED (id pubKey)
    end).

(** [isValid(publishableApiKeyId)] *)
Definition isValid (publishableApiKeyId : string) : Promise bool :=
  const pubKey := await retrieve publishableApiKeyId None;
  resolve (bool_decide (revoked_by pubKey = None)).

End Call.

(** ** Sequences of calls *)

(** One call of the service, with what the environment supplies to it. *)
Inductive Operation : Type :=
| Create (ulid : string) (loggedInUserId : string)
| Retrieve (publishableApiKeyId : string) (config : option FindConfig)
| ListAndCount (selector : Selector) (config : option FindConfig)
| Revoke (ulid : string) (now : Date) (publishableApiKeyId : string)
    (loggedInUserId : string)
| IsValid (publishableApiKeyId : string).

(** The database after a call, whether it returned or threw. *)
Definition after (op : Operation) (s : State) : State :=
  match op with
  | Create u c => (create u c s).2
  | Retrieve k cfg => (retrieve k cfg s).2
  | ListAndCount sel cfg => (listAndCount sel cfg s).2
  | Revoke u t k c => (revoke u t k c s).2
  | IsValid k => (isValid k s).2
  end.

Definition run (ops : list Operation) (s : State) : State :=
  foldl (λ s op, after op s) s ops.

(** Every stored key is revoked in both columns or in neither. *)
Definition consistent (s : State) : Prop :=
  ∀ k row, table s !! k = Some row →
    (row_revoked_at row = None ↔ row_revoked_by row = None).

(** The validity check as the design notes would have it: on the
    timestamp. *)
Definition isValid_by_revoked_at (publishableApiKeyId : string)
    : Promise bool :=
  (const pubKey := await retrieve publishableApiKeyId None;
   resolve (bool_decide (revoked_at pubKey = None)))%promise.

(** A database after some calls: two keys created, the second revoked. *)
Definition two_keys : State :=
  run [Create "01" "u1"; Create "02" "u2";
       Revoke "03" 1700000000000%Z "pk_02" "admin"] initial.

(** ** The write set and the event log *)

(** The key a call may write, if any: the generated one for [create], the
    named one for [revoke]. *)
Definition target (op : Operation) : option string :=
  match op with
  | Create u _ => Some (generateEntityId u None "pk")
  | Revoke _ _ k _ => Some k
  | Retrieve _ _ | ListAndCount _ _ | IsValid _ => None
  end.

(** The payload ids of the staged events of one name, oldest first. *)
Definition payloads (name : string) (evs : list Event)
    : list (option string) :=
  data_id <$> filter (λ ev, eventName ev = name) evs.

(** A key that is stored with its [revoked_at] set. *)
Definition revoked (s : State) (k : string) : Prop :=
  ∃ row, table s !! k = Some row ∧ is_Some (row_revoked_at row).

(** The event log tells the table: the revoked events name the revoked keys,
    each once; there are as many created events as stored keys. *)
Definition log_matches (s : State) : Prop :=
  NoDup (payloads Events.REVOKED (events s))
  ∧ (∀ o, o ∈ payloads Events.REVOKED (events s)
          ↔ ∃ k, o = Some k ∧ revoked s k)
  ∧ length (payloads Events.CREATED (events s)) = size (table s).





(** ** What each method computes *)

Definition not_found : Error :=
  MedusaError NOT_FOUND "PublishableApiKey was not found".

Definition already_revoked : Error :=
  MedusaError NOT_ALLOWED "PublishableApiKey has already been revoked.".

Lemma where_by_id k cfg e :
  q_where (buildQuery (by_id k) cfg) e = bool_decide (id e = Some k).
Proof.
  unfold buildQuery, by_id; simpl. by rewrite !andb_true_r.
Qed.

(** Looking for an identifier among listed rows finds what the map built
    from them holds: the first pair with that key. *)
Lemma find_by_id_list (l : list (string * Row)) k cfg :
  List.find (q_where (buildQuery (by_id k) cfg))
            (map (λ kr, hydrate kr.1 kr.2) l)
  = hydrate k <$> (list_to_map l : gmap string Row) !! k.
Proof.
  induction l as [|[k' r] l IH]; [done|].
  cbn [map List.find list_to_map foldr fst snd].
  rewrite where_by_id. cbn [hydrate id].
  destruct (decide (k' = k)) as [->|Hne].
  - rewrite bool_decide_true by done. by rewrite lookup_insert_eq.
  - rewrite bool_decide_false by congruence.
    rewrite lookup_insert_ne by done. exact IH.
Qed.

Lemma find_by_id s k cfg :
  List.find (q_where (buildQuery (by_id k) cfg)) (all_rows s)
  = hydrate k <$> table s !! k.
Proof.
  unfold all_rows. rewrite find_by_id_list.
  by rewrite list_to_map_to_list.
Qed.

Lemma retrieve_eq k cfg s :
  retrieve k cfg s = match table s !! k with
                 | Some row => (inr (hydrate k row), s)
                 | None => (inl not_found, s)
                 end.
Proof.
  unfold retrieve, retrieve_, andThen, findOneWithRelations.
  rewrite find_by_id. by destruct (table s !! k).
Qed.

Lemma create_eq ulid c s :
  create ulid c s =
    let k := "pk_" ++ ulid in
    match table s !! k with
    | Some _ => (inl QueryFailedError, s)
    | None =>
        (inr (mkPublishableApiKey (Some k) (Some c) None None),
         mkState (<[k := mkRow (Some c) None None]> (table s))
                 (events s ++ [mkEvent Events.CREATED None]))
    end.
Proof.
  unfold create, atomicPhase_, andThen, emit, repo_save, repo_create.
  cbn. by destruct (table s !! _).
Qed.

Lemma revoke_eq ulid now k c s :
  revoke ulid now k c s =
    match table s !! k with
    | None => (inl not_found, s)
    | Some row =>
        match row_revoked_at row with
        | Some _ => (inl already_revoked, s)
        | None =>
            (inr tt,
             mkState (<[k := mkRow (row_created_by row) (Some c) (Some now)]>
                        (table s))
                     (events s ++ [mkEvent Events.REVOKED (Some k)]))
        end
    end.
Proof.
  unfold revoke, atomicPhase_, andThen. rewrite retrieve_eq.
  destruct (table s !! k) as [row|]; [|done].
  cbn. by destruct (row_revoked_at row).
Qed.

Lemma isValid_eq k s :
  isValid k s = match table s !! k with
                | Some row => (inr (bool_decide (row_revoked_by row = None)), s)
                | None => (inl not_found, s)
                end.
Proof.
  unfold isValid, andThen. rewrite retrieve_eq.
  by destruct (table s !! k).
Qed.

Lemma isValid_by_revoked_at_eq k s :
  isValid_by_revoked_at k s =
    match table s !! k with
    | Some row => (inr (bool_decide (row_revoked_at row = None)), s)
    | None => (inl not_found, s)
    end.
Proof.
  unfold isValid_by_revoked_at, andThen. rewrite retrieve_eq.
  by destruct (table s !! k).
Qed.

Lemma listAndCount_state sel cfg s : (listAndCount sel cfg s).2 = s.
Proof. done. Qed.

(** The readers leave the database as it is. *)
Lemma retrieve_state k cfg s : (retrieve k cfg s).2 = s.
Proof. rewrite retrieve_eq. by destruct (table s !! k). Qed.

Lemma isValid_state k s : (isValid k s).2 = s.
Proof. rewrite isValid_eq. by destruct (table s !! k). Qed.

(** A key that is revoked is left as it is by every call. *)
Lemma after_keeps_revoked op s k row :
  table s !! k = Some row → is_Some (row_revoked_at row) →
  table (after op s) !! k = Some row.
Proof.
  intros Hk [t Ht].
  destruct op as [u c|k' cfg'|sel cfg|u t' k' c|k']; simpl.
  - rewrite create_eq; cbn zeta.
    destruct (table s !! ("pk_" ++ u)) eqn:Hnew; [done|]; simpl.
    rewrite lookup_insert_ne; [done|]. intros <-. congruence.
  - by rewrite retrieve_state.
  - done.
  - rewrite revoke_eq.
    destruct (table s !! k') as [row'|] eqn:Hk'; [|done].
    destruct (row_revoked_at row') eqn:Hrev; [done|]; simpl.
    rewrite lookup_insert_ne; [done|]. intros <-. congruence.
  - by rewrite isValid_state.
Qed.

Lemma consistent_initial : consistent initial.
Proof. intros k row. unfold initial; simpl. by rewrite lookup_empty. Qed.

Lemma consistent_after op s : consistent s → consistent (after op s).
Proof.
  intros Hs.
  destruct op as [u c|k' cfg'|sel cfg|u t' k' c|k']; simpl.
  - rewrite create_eq; cbn zeta.
    destruct (table s !! ("pk_" ++ u)) eqn:Hnew; [done|].
    intros k row; simpl. rewrite lookup_insert.
    case_decide; [|by apply Hs]. by intros [= <-].
  - by rewrite retrieve_state.
  - done.
  - rewrite revoke_eq.
    destruct (table s !! k') as [row'|] eqn:Hk'; [|done].
    destruct (row_revoked_at row') eqn:Hrev; [done|].
    intros k row; simpl. rewrite lookup_insert.
    case_decide; [|by apply Hs]. by intros [= <-].
  - by rewrite isValid_state.
Qed.

Lemma consistent_run ops s : consistent s → consistent (run ops s).
Proof.
  revert s. induction ops as [|op ops IH]; intros s Hs; [done|].
  simpl. by apply IH, consistent_after.
Qed.

Lemma run_keeps_revoked ops s k row :
  table s !! k = Some row → is_Some (row_revoked_at row) →
  table (run ops s) !! k = Some row.
Proof.
  revert s. induction ops as [|op ops IH]; intros s Hk Hrev; [done|].
  simpl. apply IH; [|done]. by apply after_keeps_revoked.
Qed.

Lemma length_paginate_default {A} (l : list A) :
  length (paginate (Some 0) (Some 20) l) = min 20 (length l).
Proof. unfold paginate. rewrite drop_0. apply length_take. Qed.

(** Whatever the where-clause and the pagination, the page is no longer
    than the count, and no longer than [take] when there is one. *)
Lemma length_paginate {A} sk tk (l : list A) :
  (length (paginate sk tk l) ≤ length l)%nat
  ∧ ∀ n, tk = Some n → (length (paginate sk tk l) ≤ n)%nat.
Proof.
  unfold paginate.
  assert (length (match sk with Some n => drop n l | None => l end)
          ≤ length l)%nat as Hsk.
  { destruct sk; [rewrite length_drop; lia | done]. }
  destruct tk as [n|]; [rewrite length_take|]; split; try lia; try done.
  intros ? [= <-]. lia.
Qed.

Lemma findAndCount_page_le_count query s page count :
  findAndCount query s = (inr (page, count), s) →
  (length page ≤ count)%nat.
Proof.
  intros [= <- <-].
  by destruct (length_paginate (q_skip query) (q_take query)
                 (List.filter (q_where query) (all_rows s))).
Qed.

(** ** The claims *)

(** C1. Revoking a key whose [revoked_at] is null returns, writes the key
    back with [revoked_at] set to the current instant (not null) and
    [revoked_by] set to the revoker, and stages one
    [publishable_api_key.revoked] event whose payload is the key's id. *)
Theorem revoke_active ulid now k revokerId s row :
  table s !! k = Some row →
  row_revoked_at row = None →
  ∃ s', revoke ulid now k revokerId s = (inr tt, s')
    ∧ table s' = <[k := mkRow (row_created_by row) (Some revokerId)
                           (Some now)]> (table s)
    ∧ (hydrate k <$> table s' !! k)
      = Some (mkPublishableApiKey (Some k) (row_created_by row)
                (Some revokerId) (Some now))
    ∧ events s'
      = (events s ++ [mkEvent "publishable_api_key.revoked" (Some k)])%list.
Proof.
  intros Hk Hrev. rewrite revoke_eq, Hk, Hrev.
  eexists; split; [done|]; simpl.
  by rewrite lookup_insert_eq.
Qed.

Lemma revoke_active_witness :
  table two_keys !! "pk_01" = Some (mkRow (Some "u1") None None)
  ∧ ∃ s', revoke "04" 1700000000001%Z "pk_01" "root" two_keys = (inr tt, s')
    ∧ table s' = <[ "pk_01" := mkRow (Some "u1") (Some "root")
                                 (Some 1700000000001%Z)]> (table two_keys)
    ∧ (hydrate "pk_01" <$> table s' !! "pk_01")
      = Some (mkPublishableApiKey (Some "pk_01") (Some "u1") (Some "root")
                (Some 1700000000001%Z))
    ∧ events s'
      = (events two_keys
         ++ [mkEvent "publishable_api_key.revoked" (Some "pk_01")])%list.
Proof.
  split; [reflexivity|].
  apply (revoke_active "04" 1700000000001%Z "pk_01" "root" two_keys
           (mkRow (Some "u1") None None)); reflexivity.
Defined.

(** C2. Revoking a key whose [revoked_at] is already set throws NotAllowed;
    the database is what it was: no column of the key has changed and no
    event was staged. *)
Theorem revoke_revoked ulid now k revokerId s row :
  table s !! k = Some row →
  is_Some (row_revoked_at row) →
  revoke ulid now k revokerId s
  = (inl (MedusaError NOT_ALLOWED
            "PublishableApiKey has already been revoked."), s).
Proof.
  intros Hk [t Ht]. by rewrite revoke_eq, Hk, Ht.
Qed.

Lemma revoke_revoked_witness :
  table two_keys !! "pk_02"
    = Some (mkRow (Some "u2") (Some "admin") (Some 1700000000000%Z))
  ∧ revoke "04" 1700000000001%Z "pk_02" "root" two_keys
    = (inl (MedusaError NOT_ALLOWED
              "PublishableApiKey has already been revoked."), two_keys).
Proof.
  split; [reflexivity|].
  apply (revoke_revoked "04" 1700000000001%Z "pk_02" "root" two_keys
           (mkRow (Some "u2") (Some "admin") (Some 1700000000000%Z)));
    [reflexivity | by eexists].
Defined.

(** C3. Whatever the call ([create], [retrieve], [listAndCount], [revoke] or
    [isValid]) and whether it returns or throws, a stored key whose
    [revoked_at] is set before the call is still stored, with [revoked_at]
    set, after it. *)
Theorem revoked_at_never_reverts op s k row :
  table s !! k = Some row →
  row_revoked_at row ≠ None →
  ∃ row', table (after op s) !! k = Some row'
    ∧ row_revoked_at row' ≠ None.
Proof.
  intros Hk Hrev. exists row; split; [|done].
  apply after_keeps_revoked; [done|].
  by destruct (row_revoked_at row); [eexists|].
Qed.

Lemma revoked_at_never_reverts_witness :
  table two_keys !! "pk_02"
    = Some (mkRow (Some "u2") (Some "admin") (Some 1700000000000%Z))
  ∧ ∃ row', table (after (Revoke "04" 1700000000001%Z "pk_02" "root")
                      two_keys) !! "pk_02" = Some row'
    ∧ row_revoked_at row' ≠ None.
Proof.
  split; [reflexivity|].
  apply (revoked_at_never_reverts
           (Revoke "04" 1700000000001%Z "pk_02" "root") two_keys "pk_02"
           (mkRow (Some "u2") (Some "admin") (Some 1700000000000%Z)));
    [reflexivity | discriminate].
Defined.

(** When [create] returns, the event it staged carries no id, while the key
    it returns and stores has one. *)
Lemma create_stages_undefined_id ulid c s key s' :
  create ulid c s = (inr key, s') →
  id key = Some ("pk_" ++ ulid)
  ∧ events s' = (events s ++ [mkEvent Events.CREATED None])%list.
Proof.
  rewrite create_eq; cbn zeta.
  destruct (table s !! ("pk_" ++ ulid)); [done|]. by intros [= <- <-].
Qed.

(** C4. [create] stages the [publishable_api_key.created] event in the same
    atomic phase as the insert, but builds its payload from the entity
    before it is saved: on the empty database, creating a key for ["u1"]
    stores and returns the key ["pk_01"], retrievable under that id, while
    the only staged event has a payload whose [id] is undefined. *)
Theorem create_event_payload :
  ∃ key s' ev,
    create "01" "u1" initial = (inr key, s')
    ∧ id key = Some "pk_01"
    ∧ retrieve "pk_01" None s' = (inr key, s')
    ∧ events s' = [ev]
    ∧ eventName ev = "publishable_api_key.created"
    ∧ data_id ev = None
    ∧ data_id ev ≠ id key.
Proof.
  do 3 eexists. split; [reflexivity|].
  repeat split; try reflexivity. discriminate.
Qed.

(** C5. For a stored key, [isValid] returns, and returns [true] exactly when
    the key's [revoked_by] is null; the answer does not depend on
    [revoked_at]: it is the same whatever that column holds. *)
Theorem isValid_inspects_revoked_by k s row :
  table s !! k = Some row →
  ∃ b, isValid k s = (inr b, s)
    ∧ (b = true ↔ row_revoked_by row = None)
    ∧ ∀ t, let s_t := mkState (<[k := mkRow (row_created_by row)
                                          (row_revoked_by row) t]> (table s))
                              (events s) in
           isValid k s_t = (inr b, s_t).
Proof.
  intros Hk. exists (bool_decide (row_revoked_by row = None)).
  split; [by rewrite isValid_eq, Hk|]. split.
  - by rewrite bool_decide_eq_true.
  - intros t s_t. rewrite isValid_eq. unfold s_t; simpl.
    by rewrite lookup_insert_eq.
Qed.

Lemma isValid_inspects_revoked_by_witness :
  table two_keys !! "pk_02"
    = Some (mkRow (Some "u2") (Some "admin") (Some 1700000000000%Z))
  ∧ ∃ b, isValid "pk_02" two_keys = (inr b, two_keys)
    ∧ (b = true ↔ Some "admin" = None)
    ∧ ∀ t, let s_t := mkState (<["pk_02" := mkRow (Some "u2") (Some "admin")
                                              t]> (table two_keys))
                              (events two_keys) in
           isValid "pk_02" s_t = (inr b, s_t).
Proof.
  split; [reflexivity|].
  apply (isValid_inspects_revoked_by "pk_02" two_keys
           (mkRow (Some "u2") (Some "admin") (Some 1700000000000%Z))).
  reflexivity.
Defined.

(** On every database reached from the empty one by calls of the service,
    the implemented check and the check on the timestamp are the same
    function of the id, also where the key is missing. *)
Lemma isValid_agrees ops k :
  isValid k (run ops initial) = isValid_by_revoked_at k (run ops initial).
Proof.
  rewrite isValid_eq, isValid_by_revoked_at_eq.
  destruct (table (run ops initial) !! k) as [row|] eqn:Hk; [|done].
  pose proof (consistent_run ops initial consistent_initial k row Hk) as Hc.
  do 2 f_equal. apply bool_decide_ext. by symmetry.
Qed.

(** Off the reachable databases the two checks differ: a key with a
    timestamp but no revoker counts as valid. *)
Remark isValid_differs_off_reachable :
  let s := mkState {[ "pk_01" := mkRow (Some "u1") None (Some 0%Z) ]} [] in
  (isValid "pk_01" s).1 = inr true
  ∧ (isValid_by_revoked_at "pk_01" s).1 = inr false.
Proof. split; reflexivity. Qed.

(** C6. On a database reached from the empty one by calls of the service
    only, every stored key has [revoked_by] null exactly when [revoked_at]
    is null, so [isValid] returns exactly whether [revoked_at] is null, and
    agrees with the check written on [revoked_at]. *)
Theorem isValid_equivalent_on_reachable ops k row :
  table (run ops initial) !! k = Some row →
  (row_revoked_by row = None ↔ row_revoked_at row = None)
  ∧ isValid k (run ops initial)
    = (inr (bool_decide (row_revoked_at row = None)), run ops initial)
  ∧ isValid k (run ops initial) = isValid_by_revoked_at k (run ops initial).
Proof.
  intros Hk.
  pose proof (consistent_run ops initial consistent_initial k row Hk) as Hc.
  split; [by symmetry|]. split; [|apply isValid_agrees].
  rewrite isValid_eq, Hk. do 2 f_equal. apply bool_decide_ext. by symmetry.
Qed.

Lemma isValid_equivalent_on_reachable_witness :
  let ops := [Create "01" "u1"; Create "02" "u2";
              Revoke "03" 1700000000000%Z "pk_02" "admin"] in
  table (run ops initial) !! "pk_02"
    = Some (mkRow (Some "u2") (Some "admin") (Some 1700000000000%Z))
  ∧ ((Some "admin" = None ↔ Some 1700000000000%Z = None)
     ∧ isValid "pk_02" (run ops initial)
       = (inr (bool_decide (Some 1700000000000%Z = None)), run ops initial)
     ∧ isValid "pk_02" (run ops initial)
       = isValid_by_revoked_at "pk_02" (run ops initial)).
Proof.
  intros ops. split; [reflexivity|].
  apply (isValid_equivalent_on_reachable ops "pk_02"
           (mkRow (Some "u2") (Some "admin") (Some 1700000000000%Z))).
  reflexivity.
Defined.

(** C7. When the store accepts the insert (the generated id is not taken),
    [create] returns a key with [created_by] the creator and [revoked_at]
    null; the key is new and persisted under the returned id, and
    retrieving that id right away returns it, with [revoked_at] null. *)
Theorem create_then_retrieve ulid creatorId s :
  table s !! ("pk_" ++ ulid) = None →
  ∃ key k s',
    create ulid creatorId s = (inr key, s')
    ∧ created_by key = Some creatorId
    ∧ revoked_at key = None
    ∧ id key = Some k
    ∧ table s !! k = None
    ∧ table s' !! k = Some (columns key)
    ∧ ∃ key', retrieve k None s' = (inr key', s')
        ∧ key' = key
        ∧ revoked_at key' = None.
Proof.
  intros Hnew. rewrite create_eq; cbn zeta. rewrite Hnew.
  do 3 eexists. split; [reflexivity|]. simpl.
  repeat split; try done.
  - by rewrite lookup_insert_eq.
  - eexists. rewrite retrieve_eq; simpl. rewrite lookup_insert_eq.
    by repeat split.
Qed.

Lemma create_then_retrieve_witness :
  table two_keys !! ("pk_" ++ "03") = None
  ∧ ∃ key k s',
      create "03" "u3" two_keys = (inr key, s')
      ∧ created_by key = Some "u3"
      ∧ revoked_at key = None
      ∧ id key = Some k
      ∧ table two_keys !! k = None
      ∧ table s' !! k = Some (columns key)
      ∧ ∃ key', retrieve k None s' = (inr key', s')
          ∧ key' = key
          ∧ revoked_at key' = None.
Proof.
  split; [reflexivity|].
  apply (create_then_retrieve "03" "u3" two_keys). reflexivity.
Defined.

(** C8. [retrieve] returns the stored key when the id is in the table and
    throws NotFound when it is not, leaving the database as it is; the
    outcome is that of [retrieve_], passed on as it is. *)
Theorem retrieve_found_or_not_found k s :
  retrieve k None s
  = match table s !! k with
    | Some row => (inr (hydrate k row), s)
    | None =>
        (inl (MedusaError NOT_FOUND "PublishableApiKey was not found"), s)
    end
  ∧ retrieve k None s = retrieve_ (by_id k) empty_config s.
Proof. split; [apply retrieve_eq | done]. Qed.

(** C9. Called without a config, [listAndCount] pages with skip 0 and
    take 20: it returns, leaves the database as it is, yields the first 20
    of the keys that match the selector and counts all that match; the page
    has at most 20 keys and at most as many as the count. *)
Theorem listAndCount_default selector s :
  let matching :=
    List.filter (q_where (buildQuery selector default_list_config))
      (all_rows s) in
  ∃ page count,
    listAndCount selector None s = (inr (page, count), s)
    ∧ listAndCount selector None s
      = listAndCount selector (Some (mkFindConfig (Some 0) (Some 20) [])) s
    ∧ page = firstn 20 (drop 0 matching)
    ∧ count = length matching
    ∧ (length page ≤ 20)%nat
    ∧ (length page ≤ count)%nat.
Proof.
  intros matching.
  exists (paginate (Some 0) (Some 20) matching), (length matching).
  split; [done|]. split; [done|]. split; [done|]. split; [done|].
  rewrite length_paginate_default. lia.
Qed.

(** C10. For an id that is not in the table, [isValid] does not return
    [false], nor anything: it throws the NotFound that [retrieve] throws
    for that id. *)
Theorem isValid_missing k s :
  table s !! k = None →
  ∃ e, retrieve k None s = (inl e, s)
    ∧ isValid k s = (inl e, s)
    ∧ e = MedusaError NOT_FOUND "PublishableApiKey was not found"
    ∧ (isValid k s).1 ≠ inr false.
Proof.
  intros Hk. exists not_found.
  rewrite retrieve_eq, isValid_eq, Hk. by repeat split.
Qed.

Lemma isValid_missing_witness :
  table two_keys !! "pk_99" = None
  ∧ ∃ e, retrieve "pk_99" None two_keys = (inl e, two_keys)
      ∧ isValid "pk_99" two_keys = (inl e, two_keys)
      ∧ e = MedusaError NOT_FOUND "PublishableApiKey was not found"
      ∧ (isValid "pk_99" two_keys).1 ≠ inr false.
Proof.
  split; [reflexivity|].
  apply (isValid_missing "pk_99" two_keys). reflexivity.
Defined.

(** ** Further properties of the service *)

(** *** Error paths and composition of the writers *)

(** X1. Revoking an id that is not stored throws the NotFound of
    [retrieve]; nothing is written and no event is staged. *)
Theorem revoke_missing ulid now k revokerId s :
  table s !! k = None →
  revoke ulid now k revokerId s
  = (inl (MedusaError NOT_FOUND "PublishableApiKey was not found"), s).
Proof. intros Hk. by rewrite revoke_eq, Hk. Qed.

Lemma revoke_missing_witness :
  table two_keys !! "pk_99" = None
  ∧ revoke "04" 1700000000001%Z "pk_99" "root" two_keys
    = (inl (MedusaError NOT_FOUND "PublishableApiKey was not found"),
       two_keys).
Proof.
  split; [reflexivity|].
  apply (revoke_missing "04" 1700000000001%Z "pk_99" "root" two_keys).
  reflexivity.
Defined.

Lemma after_frame op s k :
  target op ≠ Some k → table (after op s) !! k = table s !! k.
Proof.
  intros Hk.
  destruct op as [u c|k' cfg'|sel cfg|u t' k' c|k']; simpl in *.
  - rewrite create_eq; cbn zeta.
    destruct (table s !! ("pk_" ++ u)); [done|]; simpl.
    rewrite lookup_insert_ne; [done|]. intros <-. by apply Hk.
  - by rewrite retrieve_state.
  - done.
  - rewrite revoke_eq.
    destruct (table s !! k') as [row'|]; [|done].
    destruct (row_revoked_at row'); [done|]; simpl.
    rewrite lookup_insert_ne; [done|]. intros <-. by apply Hk.
  - by rewrite isValid_state.
Qed.

(** X2. A call writes at most one key: [create] the one it generates,
    [revoke] the one it is given, the readers none.  Every other key is
    stored after the call as it was before, with the same answer of
    [isValid], whether the call returned or threw. *)
Theorem call_writes_only_its_target op s k :
  target op ≠ Some k →
  table (after op s) !! k = table s !! k
  ∧ (isValid k (after op s)).1 = (isValid k s).1.
Proof.
  intros Hk. pose proof (after_frame op s k Hk) as Hframe.
  split; [done|]. rewrite !isValid_eq, Hframe.
  by destruct (table s !! k).
Qed.

Lemma call_writes_only_its_target_witness :
  target (Revoke "04" 1700000000001%Z "pk_01" "root") ≠ Some "pk_02"
  ∧ table (after (Revoke "04" 1700000000001%Z "pk_01" "root") two_keys)
      !! "pk_02" = table two_keys !! "pk_02"
  ∧ (isValid "pk_02"
       (after (Revoke "04" 1700000000001%Z "pk_01" "root") two_keys)).1
    = (isValid "pk_02" two_keys).1.
Proof.
  split; [discriminate|].
  apply (call_writes_only_its_target
           (Revoke "04" 1700000000001%Z "pk_01" "root") two_keys "pk_02").
  discriminate.
Defined.

(** X3. After [revoke] has returned for a key, [isValid] of that key is
    [false], and every further [revoke] of it, by whomever and whenever,
    throws NotAllowed and leaves the database as the first one left it. *)
Theorem revoke_twice ulid now k revokerId s s' :
  revoke ulid now k revokerId s = (inr tt, s') →
  isValid k s' = (inr false, s')
  ∧ ∀ ulid' now' revokerId',
      revoke ulid' now' k revokerId' s'
      = (inl (MedusaError NOT_ALLOWED
                "PublishableApiKey has already been revoked."), s').
Proof.
  rewrite revoke_eq.
  destruct (table s !! k) as [row|] eqn:Hk; [|done].
  destruct (row_revoked_at row) eqn:Hrev; [done|].
  intros [= <-]. split.
  - rewrite isValid_eq; simpl. by rewrite lookup_insert_eq.
  - intros ulid' now' revokerId'. rewrite revoke_eq; simpl.
    by rewrite lookup_insert_eq.
Qed.

Lemma revoke_twice_witness :
  let s' := (revoke "04" 1700000000001%Z "pk_01" "root" two_keys).2 in
  revoke "04" 1700000000001%Z "pk_01" "root" two_keys = (inr tt, s')
  ∧ isValid "pk_01" s' = (inr false, s')
  ∧ ∀ ulid' now' revokerId',
      revoke ulid' now' "pk_01" revokerId' s'
      = (inl (MedusaError NOT_ALLOWED
                "PublishableApiKey has already been revoked."), s').
Proof.
  intros s'. split; [reflexivity|].
  apply (revoke_twice "04" 1700000000001%Z "pk_01" "root" two_keys s').
  reflexivity.
Defined.

(** X4. A key that [create] has just returned is valid and can be revoked:
    [isValid] of its id is [true], and a [revoke] of it by anyone returns,
    records that revoker and instant, and makes [isValid] [false]. *)
Theorem create_valid_then_revocable ulid creatorId s key s' :
  create ulid creatorId s = (inr key, s') →
  ∃ k, id key = Some k
    ∧ isValid k s' = (inr true, s')
    ∧ ∀ ulid' now revokerId, ∃ s'',
        revoke ulid' now k revokerId s' = (inr tt, s'')
        ∧ retrieve k None s''
          = (inr (mkPublishableApiKey (Some k) (Some creatorId)
                    (Some revokerId) (Some now)), s'')
        ∧ isValid k s'' = (inr false, s'').
Proof.
  rewrite create_eq; cbn zeta.
  destruct (table s !! ("pk_" ++ ulid)) eqn:Hnew; [done|].
  intros [= <- <-]. eexists; split; [reflexivity|]. split.
  - rewrite isValid_eq; simpl. by rewrite lookup_insert_eq.
  - intros ulid' now revokerId. eexists.
    rewrite revoke_eq; simpl. rewrite lookup_insert_eq; simpl.
    split; [reflexivity|].
    rewrite retrieve_eq, isValid_eq; simpl.
    by rewrite lookup_insert_eq.
Qed.

Lemma create_valid_then_revocable_witness :
  let key := mkPublishableApiKey (Some "pk_03") (Some "u3") None None in
  let s' := (create "03" "u3" two_keys).2 in
  create "03" "u3" two_keys = (inr key, s')
  ∧ ∃ k, id key = Some k
      ∧ isValid k s' = (inr true, s')
      ∧ ∀ ulid' now revokerId, ∃ s'',
          revoke ulid' now k revokerId s' = (inr tt, s'')
          ∧ retrieve k None s''
            = (inr (mkPublishableApiKey (Some k) (Some "u3")
                      (Some revokerId) (Some now)), s'')
          ∧ isValid k s'' = (inr false, s'').
Proof.
  intros key s'. split; [reflexivity|].
  apply (create_valid_then_revocable "03" "u3" two_keys key s').
  reflexivity.
Defined.

(** X5. The writers are all or nothing.  When [create] or [revoke] throws,
    the database is what it was: the created event that [create] emits
    before its save is not staged when the save fails.  When one returns,
    it has staged exactly one event, of its own name; [create] has added
    one key to the table and [revoke] none. *)
Theorem writers_all_or_nothing ulid now k userId s :
  match create ulid userId s with
  | (inl _, s') => s' = s
  | (inr _, s') =>
      (∃ o, events s'
            = (events s ++ [mkEvent "publishable_api_key.created" o])%list)
      ∧ size (table s') = S (size (table s))
  end
  ∧ match revoke ulid now k userId s with
    | (inl _, s') => s' = s
    | (inr _, s') =>
        (∃ o, events s'
              = (events s ++ [mkEvent "publishable_api_key.revoked" o])%list)
        ∧ size (table s') = size (table s)
    end.
Proof.
  split.
  - rewrite create_eq; cbn zeta.
    destruct (table s !! ("pk_" ++ ulid)) eqn:Hnew; [done|]; simpl.
    split; [by eexists|]. by apply map_size_insert_None.
  - rewrite revoke_eq.
    destruct (table s !! k) as [row|] eqn:Hk; [|done].
    destruct (row_revoked_at row); [done|]; simpl.
    split; [by eexists|]. by rewrite map_size_insert_Some.
Qed.

(** *** The readers over selectors and pages *)









Lemma filter_by_id_absent (l : list (string * Row)) k cfg :
  k ∉ l.*1 →
  List.filter (q_where (buildQuery (by_id k) cfg))
    (map (λ kr, hydrate kr.1 kr.2) l) = [].
Proof.
  induction l as [|[k' r] l IH]; [done|].
  rewrite fmap_cons, not_elem_of_cons. intros [Hne Hl]. simpl in Hne.
  cbn [map List.filter fst snd]. rewrite where_by_id. cbn [hydrate id].
  rewrite bool_decide_false by congruence. by apply IH.
Qed.

Lemma filter_by_id_list (l : list (string * Row)) k cfg :
  NoDup l.*1 →
  List.filter (q_where (buildQuery (by_id k) cfg))
    (map (λ kr, hydrate kr.1 kr.2) l)
  = option_list (hydrate k <$> (list_to_map l : gmap string Row) !! k).
Proof.
  induction l as [|[k' r] l IH]; [done|].
  rewrite fmap_cons, NoDup_cons. intros [Hnew Hl].
  cbn [map List.filter list_to_map foldr fst snd] in *.
  rewrite where_by_id. cbn [hydrate id].
  destruct (decide (k' = k)) as [->|Hne].
  - rewrite bool_decide_true by done. rewrite lookup_insert_eq.
    by rewrite filter_by_id_absent.
  - rewrite bool_decide_false by congruence.
    rewrite lookup_insert_ne by done. by apply IH.
Qed.

Lemma filter_by_id s k cfg :
  List.filter (q_where (buildQuery (by_id k) cfg)) (all_rows s)
  = option_list (hydrate k <$> table s !! k).
Proof.
  unfold all_rows.
  rewrite filter_by_id_list by apply NoDup_fst_map_to_list.
  by rewrite list_to_map_to_list.
Qed.

(** X10. Listing by id agrees with [retrieve]: with the default config,
    [listAndCount] on the selector [{ id }] returns the one key that
    [retrieve] returns for that id, with count 1, and the empty page with
    count 0 where [retrieve] throws. *)
Theorem listAndCount_by_id k s :
  listAndCount (by_id k) None s
  = (inr (match (retrieve k None s).1 with
          | inr key => ([key], 1%nat)
          | inl _ => ([], 0%nat)
          end), s).
Proof.
  unfold listAndCount, findAndCount; cbn [default q_where q_skip q_take].
  cbn [option_rect from_option]. rewrite filter_by_id, retrieve_eq.
  by destruct (table s !! k).
Qed.

(** *** Invariants of sequences of calls *)

Lemma payloads_snoc_same name evs o :
  payloads name (evs ++ [mkEvent name o]) = (payloads name evs ++ [o])%list.
Proof.
  unfold payloads. rewrite filter_app, fmap_app.
  by rewrite filter_cons_True.
Qed.

Lemma payloads_snoc_other name name' evs o :
  name' ≠ name →
  payloads name (evs ++ [mkEvent name' o]) = payloads name evs.
Proof.
  intros Hne. unfold payloads. rewrite filter_app, fmap_app.
  rewrite filter_cons_False by done. by rewrite app_nil_r.
Qed.

Lemma created_ne_revoked : Events.CREATED ≠ Events.REVOKED.
Proof. discriminate. Qed.

Lemma revoked_insert_other s k k' row evs :
  k ≠ k' →
  revoked (mkState (<[k := row]> (table s)) evs) k' ↔ revoked s k'.
Proof.
  intros Hne. unfold revoked; simpl. by rewrite lookup_insert_ne.
Qed.

Lemma log_matches_initial : log_matches initial.
Proof.
  split; [constructor|]. split; [|done].
  intros o; split.
  - by intros ?%elem_of_nil.
  - intros (k & _ & row & Hrow & _). simpl in Hrow.
    by rewrite lookup_empty in Hrow.
Qed.

Lemma log_matches_create u c s :
  log_matches s → log_matches (create u c s).2.
Proof.
  intros (Hnodup & Hiff & Hsize).
  rewrite create_eq; cbn zeta.
  destruct (table s !! ("pk_" ++ u)) eqn:Hnew; [done|].
  unfold log_matches; simpl.
  rewrite payloads_snoc_other by apply created_ne_revoked.
  rewrite payloads_snoc_same, length_app; simpl.
  split; [done|]. split.
  - intros o. rewrite Hiff. apply exist_proper; intros k'.
    destruct (decide ("pk_" ++ u = k')) as [<-|Hne].
    + split; intros [_ (row & Hrow & Hrev)]; exfalso.
      * congruence.
      * simpl in Hrow. rewrite lookup_insert_eq in Hrow.
        injection Hrow as <-. by destruct Hrev.
    + by rewrite revoked_insert_other.
  - rewrite map_size_insert_None by done. lia.
Qed.

Lemma log_matches_revoke u t k c s :
  log_matches s → log_matches (revoke u t k c s).2.
Proof.
  intros (Hnodup & Hiff & Hsize).
  rewrite revoke_eq.
  destruct (table s !! k) as [row|] eqn:Hk; [|done].
  destruct (row_revoked_at row) eqn:Hrev; [done|].
  assert (¬ revoked s k) as Hfresh.
  { intros (row' & Hrow' & Hset). rewrite Hk in Hrow'.
    injection Hrow' as <-. rewrite Hrev in Hset. by destruct Hset. }
  assert (revoked
            (mkState (<[k := mkRow (row_created_by row) (Some c) (Some t)]>
                        (table s))
                     (events s ++ [mkEvent Events.REVOKED (Some k)])) k)
    as Hnow.
  { eexists; simpl. rewrite lookup_insert_eq. split; [done|by eexists]. }
  unfold log_matches; cbn [snd events table].
  rewrite payloads_snoc_same.
  rewrite payloads_snoc_other by (symmetry; apply created_ne_revoked).
  split; [|split].
  - apply NoDup_app. split; [done|]. split; [|apply NoDup_singleton].
    intros o Ho ->%list_elem_of_singleton.
    apply Hiff in Ho as (k' & [= <-] & Hk'). by apply Hfresh.
  - intros o. rewrite elem_of_app, list_elem_of_singleton, Hiff. split.
    + intros [(k' & -> & Hk')| ->]; [|by exists k].
      exists k'. split; [done|].
      apply revoked_insert_other; [|done]. by intros <-.
    + intros (k' & -> & Hk').
      destruct (decide (k = k')) as [<-|Hne]; [by right|left].
      exists k'. split; [done|]. by eapply revoked_insert_other.
  - by rewrite map_size_insert_Some.
Qed.

Lemma log_matches_after op s : log_matches s → log_matches (after op s).
Proof.
  destruct op as [u c|k' cfg'|sel cfg|u t' k' c|k']; simpl.
  - apply log_matches_create.
  - by rewrite retrieve_state.
  - done.
  - apply log_matches_revoke.
  - by rewrite isValid_state.
Qed.

Lemma log_matches_run ops s : log_matches s → log_matches (run ops s).
Proof.
  revert s. induction ops as [|op ops IH]; intros s Hs; [done|].
  simpl. by apply IH, log_matches_after.
Qed.

Lemma after_keeps_created_by op s k row :
  table s !! k = Some row →
  ∃ row', table (after op s) !! k = Some row'
    ∧ row_created_by row' = row_created_by row.
Proof.
  intros Hk. destruct (decide (target op = Some k)) as [Htarget|Hother].
  - destruct op as [u c|k' cfg'|sel cfg|u t' k' c|k'];
      try done; injection Htarget as <-; simpl.
    + assert (table s !! ("pk_" ++ u) = Some row) as Hk' by exact Hk.
      rewrite create_eq; cbn zeta. rewrite Hk'. by exists row.
    + rewrite revoke_eq, Hk.
      destruct (row_revoked_at row); [by exists row|]; simpl.
      rewrite lookup_insert_eq. by eexists.
  - exists row. by rewrite after_frame.
Qed.

Lemma run_keeps_created_by ops s k row :
  table s !! k = Some row →
  ∃ row', table (run ops s) !! k = Some row'
    ∧ row_created_by row' = row_created_by row.
Proof.
  revert s row. induction ops as [|op ops IH]; intros s row Hk.
  { by exists row. }
  destruct (after_keeps_created_by op s k row Hk) as (row1 & Hk1 & <-).
  by apply IH.
Qed.

(** X11. After any sequence of calls from the empty database, the staged
    revoked events name exactly the revoked keys: every one carries the id
    of a stored key whose [revoked_at] is set, every such key has one, and
    no id is carried twice. *)
Theorem revoked_events_name_revoked_keys ops :
  NoDup (payloads "publishable_api_key.revoked" (events (run ops initial)))
  ∧ ∀ o, o ∈ payloads "publishable_api_key.revoked"
               (events (run ops initial))
         ↔ ∃ k row, o = Some k
             ∧ table (run ops initial) !! k = Some row
             ∧ is_Some (row_revoked_at row).
Proof.
  destruct (log_matches_run ops initial log_matches_initial)
    as (Hnodup & Hiff & _).
  split; [done|]. intros o. rewrite (Hiff o). unfold revoked. split.
  - intros (k & -> & row & Hrow & Hrev). by exists k, row.
  - intros (k & row & -> & Hrow & Hrev). exists k. split; [done|].
    by exists row.
Qed.

(** X12. After any sequence of calls from the empty database, there are as
    many staged created events as keys in the table: a [create] that
    throws stages none, and no call removes a key. *)
Theorem created_events_count_keys ops :
  length (payloads "publishable_api_key.created" (events (run ops initial)))
  = size (table (run ops initial)).
Proof.
  by destruct (log_matches_run ops initial log_matches_initial)
    as (_ & _ & Hsize).
Qed.

(** X13. A stored key is never deleted nor given another creator: after
    any further sequence of calls, [retrieve] of its id returns a key with
    that id and the same [created_by]. *)
Theorem key_persists ops s k row :
  table s !! k = Some row →
  ∃ key, retrieve k None (run ops s) = (inr key, run ops s)
    ∧ id key = Some k
    ∧ created_by key = row_created_by row.
Proof.
  intros Hk.
  destruct (run_keeps_created_by ops s k row Hk) as (row' & Hk' & Hby).
  exists (hydrate k row'). by rewrite retrieve_eq, Hk'.
Qed.

Lemma key_persists_witness :
  let ops := [Revoke "04" 1700000000001%Z "pk_01" "root";
              Create "01" "u7"; Create "05" "u7"] in
  table two_keys !! "pk_01" = Some (mkRow (Some "u1") None None)
  ∧ ∃ key, retrieve "pk_01" None (run ops two_keys)
           = (inr key, run ops two_keys)
      ∧ id key = Some "pk_01"
      ∧ created_by key = Some "u1".
Proof.
  intros ops. split; [reflexivity|].
  apply (key_persists ops two_keys "pk_01" (mkRow (Some "u1") None None)).
  reflexivity.
Defined.

(** X14. A revocation is final in every column: once a key is stored with
    [revoked_at] set, after any further sequence of calls [retrieve] returns
    it with the same [revoked_by] and the same [revoked_at]; a later
    [revoke] by someone else overwrites neither. *)
Theorem revocation_is_final ops s k row :
  table s !! k = Some row →
  is_Some (row_revoked_at row) →
  retrieve k None (run ops s) = (inr (hydrate k row), run ops s).
Proof.
  intros Hk Hrev. rewrite retrieve_eq.
  by rewrite (run_keeps_revoked ops s k row Hk Hrev).
Qed.

Lemma revocation_is_final_witness :
  let ops := [Revoke "04" 1700000000001%Z "pk_02" "root";
              Create "02" "u7"; Create "05" "u7";
              Revoke "06" 1700000000002%Z "pk_02" "u2"] in
  table two_keys !! "pk_02"
    = Some (mkRow (Some "u2") (Some "admin") (Some 1700000000000%Z))
  ∧ retrieve "pk_02" None (run ops two_keys)
    = (inr (mkPublishableApiKey (Some "pk_02") (Some "u2") (Some "admin")
              (Some 1700000000000%Z)), run ops two_keys).
Proof.
  intros ops. split; [reflexivity|].
  apply (revocation_is_final ops two_keys "pk_02"
           (mkRow (Some "u2") (Some "admin") (Some 1700000000000%Z)));
    [reflexivity | by eexists].
Defined.
